(** * res/tools/generate-md-icons.py

    A shallow embedding of the icon conversion script and the properties
    of the commands it hands to the external image tools.

    The script is a straight line of effects: it reads [sys.argv[1]],
    prints one line, and calls [subprocess.run] once per command.  The
    embedding threads an explicit state (the outside world and the log of
    what the script did) through a small exception monad.  The outside
    is a parameter: how it answers a command, and whether it takes the
    printed line. *)

From Stdlib Require Import List String Ascii ZArith Bool Lia.
Import ListNotations.
Open Scope list_scope.
Open Scope string_scope.

(** ** Python values the script uses *)

Module Py.

(** The exceptions the script can raise.  [IndexError] comes from
    [sys.argv[1]]; [KeyError] and [ValueError] from [str.format];
    [UnicodeEncodeError] from [print], when the line cannot be encoded
    for standard output; [OSError] from [print], when standard output
    cannot be written (no program then), and from [subprocess.run], when
    the program cannot be started (Python raises [FileNotFoundError], a
    subclass, which carries the program). *)
Inductive exn : Type :=
| IndexError
| KeyError (key : string)
| ValueError
| UnicodeEncodeError
| OSError (program : option string).

Inductive result (A : Type) : Type :=
| Ok (a : A)
| Raise (e : exn).
Arguments Ok {A} a.
Arguments Raise {A} e.

(** [subprocess.CompletedProcess]: the script passes neither
    [capture_output] nor [stdout]/[stderr], so only [args] and
    [returncode] carry information. *)
Record CompletedProcess : Type := mkCompleted {
  cp_args : list string;
  cp_returncode : Z
}.

(** Why a write to standard output fails: the text cannot be encoded,
    or the stream cannot be written. *)
Inductive write_error : Type :=
| EncodeError
| WriteError.

Definition exn_of_write_error (e : write_error) : exn :=
  match e with
  | EncodeError => UnicodeEncodeError
  | WriteError => OSError None
  end.

(** [str(x)] on a [str] is the identity. *)
Definition str (s : string) : string := s.

(** Keyword arguments of a call, in call order. *)
Definition kwargs := list (string * string).

Fixpoint kw_get (kw : kwargs) (key : string) : option string :=
  match kw with
  | [] => None
  | (k, v) :: rest => if String.eqb k key then Some v else kw_get rest key
  end.

(** [template.format] with keyword arguments [kw], for templates whose
    replacement fields are plain names (no [{{], no positional field,
    no conversion), which is what every template of the script is.  The
    second argument is the field name being read, when the scan is inside
    braces.  A substituted value is appended as it is and never scanned
    again. *)
Fixpoint format_from (template : string) (field : option string)
         (kw : kwargs) : result string :=
  match template with
  | EmptyString =>
      match field with
      | None => Ok EmptyString
      | Some _ => Raise ValueError
      end
  | String c rest =>
      match field with
      | None =>
          if Ascii.eqb c "{" then format_from rest (Some EmptyString) kw
          else if Ascii.eqb c "}" then Raise ValueError
          else match format_from rest None kw with
               | Ok s => Ok (String c s)
               | Raise e => Raise e
               end
      | Some name =>
          if Ascii.eqb c "}" then
            match kw_get kw name with
            | None => Raise (KeyError name)
            | Some v =>
                match format_from rest None kw with
                | Ok s => Ok (v ++ s)
                | Raise e => Raise e
                end
            end
          else format_from rest (Some (name ++ String c EmptyString)) kw
      end
  end.

Definition format (template : string) (kw : kwargs) : result string :=
  format_from template None kw.

End Py.
Import Py.

(** ** What the script does to the outside *)

(** One entry of the log.  [Print s] is a line written to standard
    output.  [Run args status] is one call of [subprocess.run(args)]:
    [status] is [Some rc] when the process ran and exited with return code
    [rc], and [None] when it could not be started. *)
Inductive event : Type :=
| Print (line : string)
| Run (args : list string) (status : option Z).

(** What a write to standard output gives: the world with the text
    written, or the reason why nothing was written. *)
Inductive write_result (World : Type) : Type :=
| Written (w : World)
| WriteFails (e : write_error).
Arguments Written {World} w.
Arguments WriteFails {World} e.

(** The commands issued, in order, whatever became of them. *)
Fixpoint commands_of (log : list event) : list (list string) :=
  match log with
  | [] => []
  | Print _ :: rest => commands_of rest
  | Run args _ :: rest => args :: commands_of rest
  end.

(** The static catalogs, embedded in the script.  [ICONS] is a [dict]
    iterated with [.items()], that is in insertion order, so it is the
    list of its items. *)
Definition ICONS : list (string * list string) :=
  [ ("av", ["play_arrow"; "pause"; "stop"]);
    ("action", ["drag_indicator"]) ].

Definition SYMBOLS : list string :=
  [ "drag_indicator";
    "file_open";
    "file_save";
    "new_window";
    "piano";
    "play_arrow";
    "stop";
    "view_timeline" ].

(** ** The vocabulary of the properties

    The paths and command lines the specification speaks of, written with
    plain concatenation.  The script itself builds them with [format]. *)

Definition icons_dir : string := "res/images/md-icons".
Definition symbols_dir : string := "res/images/md-symbols".

Definition icon_source (base group name : string) : string :=
  base ++ "/src/" ++ group ++ "/" ++ name ++ "/materialicons/24px.svg".

Definition symbol_source (base name : string) : string :=
  base ++ "/symbols/web/" ++ name ++ "/materialsymbolssharp/"
       ++ name ++ "_wght100_24px.svg".

Definition icon_outfile (name : string) : string :=
  icons_dir ++ "/" ++ name ++ ".png".

Definition symbol_outfile (name : string) : string :=
  symbols_dir ++ "/" ++ name ++ ".png".

Definition banner (base : string) : string :=
  "Reading material design icons/symbols from base directory " ++ base.

Definition mkdir_p (dir : string) : list string := ["mkdir"; "-p"; dir].

Definition rasterize (src outfile : string) : list string :=
  ["convert"; src; "-density"; "576"; "-background"; "none";
   "-negate"; outfile].

Definition strip (outfile : string) : list string :=
  ["mogrify"; "-strip"; outfile].

(** The (group, name) pairs of [ICONS] in iteration order. *)
Definition icon_entries : list (string * string) :=
  flat_map (fun '(group, icons) => map (pair group) icons) ICONS.

Definition icon_names : list string := map snd icon_entries.

Definition icon_commands (base : string) (entry : string * string)
  : list (list string) :=
  let (group, name) := entry in
  [ rasterize (icon_source base group name) (icon_outfile name);
    strip (icon_outfile name) ].

Definition symbol_commands (base name : string) : list (list string) :=
  [ rasterize (symbol_source base name) (symbol_outfile name);
    strip (symbol_outfile name) ].

(** The conversions, icons first, each catalog in iteration order. *)
Definition conversion_commands (base : string) : list (list string) :=
  (flat_map (icon_commands base) icon_entries
   ++ flat_map (symbol_commands base) SYMBOLS)%list.

Definition script_commands (base : string) : list (list string) :=
  mkdir_p icons_dir :: mkdir_p symbols_dir :: conversion_commands base.

(** The file a [convert] command writes: its last argument. *)
Definition outfiles (cs : list (list string)) : list string :=
  flat_map (fun c => match c with
                     | "convert" :: _ => [last c ""]
                     | _ => []
                     end) cs.

Fixpoint distinct (l : list string) : bool :=
  match l with
  | [] => true
  | x :: rest => negb (existsb (String.eqb x) rest) && distinct rest
  end.

(** The files the conversions may write: one per catalog entry. *)
Definition icon_output (p : string) : Prop :=
  exists group icons name,
    In (group, icons) ICONS /\ In name icons
    /\ p = "res/images/md-icons/" ++ name ++ ".png".

Definition symbol_output (p : string) : Prop :=
  exists name,
    In name SYMBOLS /\ p = "res/images/md-symbols/" ++ name ++ ".png".

Definition catalog_output (p : string) : Prop :=
  icon_output p \/ symbol_output p.

(** Every entry of a log except the last is a line printed or a process
    that ran and exited. *)
Fixpoint completed_but_last (l : list event) : bool :=
  match l with
  | [] => true
  | e :: rest =>
      match rest with
      | [] => true
      | _ :: _ =>
          match e with
          | Run _ None => false
          | _ => completed_but_last rest
          end
      end
  end.

(** Environments used to run the script on concrete inputs.  The world
    of the first three is trivial; the last keeps the set of directories
    that exist, and its [mkdir -p] succeeds whether or not the directory
    is there. *)
Definition all_succeed (args : list string) (w : unit) : option (Z * unit) :=
  Some (0%Z, w).

Definition all_fail (args : list string) (w : unit) : option (Z * unit) :=
  Some (1%Z, w).

Definition convert_missing (args : list string) (w : unit)
  : option (Z * unit) :=
  match args with
  | "convert" :: _ => None
  | _ => Some (0%Z, w)
  end.

Definition with_dirs (args : list string) (dirs : list string)
  : option (Z * list string) :=
  match args with
  | ["mkdir"; "-p"; d] =>
      if existsb (String.eqb d) dirs then Some (0%Z, dirs)
      else Some (0%Z, d :: dirs)
  | _ => Some (0%Z, dirs)
  end.

(** No entry of the log is a process that could not be started. *)
Definition all_exited (l : list event) : bool :=
  forallb (fun e => match e with
                    | Run _ None => false
                    | _ => true
                    end) l.

(** The environment [exec] with every return code [rc] of a command
    [args] replaced by [f args rc]; what can be started and what a
    process does to the world stay the same. *)
Definition relabel {World : Type} (f : list string -> Z -> Z)
           (exec : list string -> World -> option (Z * World))
  : list string -> World -> option (Z * World) :=
  fun args w =>
    match exec args w with
    | Some (rc, w') => Some (f args rc, w')
    | None => None
    end.

(** The conversions as (source, output file) pairs, in the order of the
    two loops. *)
Definition tasks (base : string) : list (string * string) :=
  (map (fun '(group, name) =>
          (icon_source base group name, icon_outfile name)) icon_entries
   ++ map (fun name => (symbol_source base name, symbol_outfile name))
          SYMBOLS)%list.

Definition task_commands (task : string * string) : list (list string) :=
  [rasterize (fst task) (snd task); strip (snd task)].

(** Only the three tools are installed, and each exits with return
    code 1 whatever it is asked. *)
Definition tools_fail (args : list string) (w : unit) : option (Z * unit) :=
  match args with
  | "mkdir" :: _ => Some (1%Z, w)
  | "convert" :: _ => Some (1%Z, w)
  | "mogrify" :: _ => Some (1%Z, w)
  | _ => None
  end.

(** A world that is the list of the paths that exist.  Only the three
    tools are installed: [mkdir -p] creates the directory unless it is
    there, [convert] creates or overwrites its last argument, and
    [mogrify -strip] exits with 1 on a file that does not exist. *)
Definition add_path (p : string) (paths : list string) : list string :=
  if existsb (String.eqb p) paths then paths else p :: paths.

Definition file_system (args : list string) (paths : list string)
  : option (Z * list string) :=
  match args with
  | ["mkdir"; "-p"; d] => Some (0%Z, add_path d paths)
  | "mkdir" :: _ => Some (1%Z, paths)
  | "convert" :: _ :: _ => Some (0%Z, add_path (last args "") paths)
  | "convert" :: _ => Some (1%Z, paths)
  | ["mogrify"; "-strip"; f] =>
      if existsb (String.eqb f) paths then Some (0%Z, paths)
      else Some (1%Z, paths)
  | "mogrify" :: _ => Some (1%Z, paths)
  | _ => None
  end.

(** Standard output that takes every line. *)
Definition stdout_ok {World : Type} (line : string) (w : World)
  : write_result World :=
  Written w.

(** Argument lists: the script called as its header comment says, and
    called without the base directory. *)
Definition example_argv : list string :=
  ["res/tools/generate-md-icons.py"; "/md"].

Definition bare_argv : list string := ["res/tools/generate-md-icons.py"].

Section Script.

(** The outside world (file system, installed programs) and how it
    answers a command: [exec args w] is [None] when the program cannot be
    started, and [Some (rc, w')] when it ran to completion with return
    code [rc] and left the world [w']. *)
Variable World : Type.
Variable exec : list string -> World -> option (Z * World).

(** Standard output: [stdout_write line w] is [Written w'] when the line
    went out, leaving the world [w'], and [WriteFails e] when [print]
    raises. *)
Variable stdout_write : string -> World -> write_result World.

Record state : Type := mkState {
  world : World;
  log : list event
}.

Definition M (A : Type) : Type := state -> result A * state.

Definition ret {A} (a : A) : M A := fun st => (Ok a, st).

Definition bind {A B} (m : M A) (k : A -> M B) : M B :=
  fun st =>
    match m st with
    | (Ok a, st') => k a st'
    | (Raise e, st') => (Raise e, st')
    end.

Definition lift {A} (r : result A) : M A := fun st => (r, st).

Notation "x <- m ;; k" := (bind m (fun x => k))
  (at level 61, m at next level, right associativity).
Notation "m ;; k" := (bind m (fun _ => k))
  (at level 61, right associativity).

(** [sys.argv[i]] for a non-negative [i]. *)
Definition sys_argv (argv : list string) (i : nat) : M string :=
  match nth_error argv i with
  | Some a => ret a
  | None => lift (Raise IndexError)
  end.

(** [print(line)]: raises what the write to standard output raises, and
    then nothing has been written. *)
Definition print (line : string) : M unit :=
  fun st =>
    match stdout_write line (world st) with
    | Written w' => (Ok tt, mkState w' (log st ++ [Print line])%list)
    | WriteFails e => (Raise (exn_of_write_error e), st)
    end.

(** [subprocess.run(args)] with the defaults ([check=False],
    [shell=False]): blocks until the process has exited and returns a
    [CompletedProcess] whatever the return code; raises when the program
    cannot be started. *)
Definition subprocess_run (args : list string) : M CompletedProcess :=
  fun st =>
    match exec args (world st) with
    | Some (rc, w') =>
        (Ok (mkCompleted args rc),
         mkState w' (log st ++ [Run args (Some rc)])%list)
    | None =>
        (Raise (OSError (hd_error args)),
         mkState (world st) (log st ++ [Run args None])%list)
    end.

(** [for x in xs: body]. *)
Fixpoint for_ {A} (xs : list A) (body : A -> M unit) : M unit :=
  match xs with
  | [] => ret tt
  | x :: rest => body x ;; for_ rest body
  end.

(** The body of the inner loop over [ICONS] (lines 34 to 43). *)
Definition convert_icon (md_dir group name : string) : M unit :=
  outfile <- lift (format "res/images/md-icons/{name}.png"
                          [("name", name)]) ;;
  src <- lift (format "{md_dir}/src/{group}/{name}/materialicons/24px.svg"
                      [("md_dir", md_dir); ("group", str group);
                       ("name", name)]) ;;
  subprocess_run ["convert"; src;
                  "-density"; "576";
                  "-background"; "none";
                  "-negate"; outfile] ;;
  subprocess_run ["mogrify"; "-strip"; outfile] ;;
  ret tt.

(** The body of the loop over [SYMBOLS] (lines 57 to 65). *)
Definition convert_symbol (md_dir symbol : string) : M unit :=
  outfile <- lift (format "res/images/md-symbols/{symbol}.png"
                          [("symbol", symbol)]) ;;
  src <- lift (format
    "{md_dir}/symbols/web/{symbol}/materialsymbolssharp/{symbol}_wght100_24px.svg"
                      [("md_dir", md_dir); ("symbol", symbol)]) ;;
  subprocess_run ["convert"; src;
                  "-density"; "576";
                  "-background"; "none";
                  "-negate"; outfile] ;;
  subprocess_run ["mogrify"; "-strip"; outfile] ;;
  ret tt.

(** The whole script, top to bottom. *)
Definition main (argv : list string) : M unit :=
  md_dir <- sys_argv argv 1 ;;
  line <- lift (format
    "Reading material design icons/symbols from base directory {md_dir}"
                       [("md_dir", md_dir)]) ;;
  print line ;;
  subprocess_run ["mkdir"; "-p"; "res/images/md-icons"] ;;
  subprocess_run ["mkdir"; "-p"; "res/images/md-symbols"] ;;
  for_ ICONS (fun '(group, icons) =>
    for_ icons (fun name => convert_icon md_dir group name)) ;;
  for_ SYMBOLS (fun symbol => convert_symbol md_dir symbol).

(** A run of the script from a world [w]: nothing logged yet. *)
Definition run_script (argv : list string) (w : World) : result unit * state :=
  main argv (mkState w []).

(** ** Reference semantics of a command list

    What running the commands [cs] one after the other from the world [w]
    produces: each command starts in the world its predecessor left when
    it exited, and the first command that cannot be started ends the
    run. *)

Fixpoint sequential (cs : list (list string)) (w : World) : list event :=
  match cs with
  | [] => []
  | c :: rest =>
      match exec c w with
      | Some (rc, w') => Run c (Some rc) :: sequential rest w'
      | None => [Run c None]
      end
  end.

Fixpoint world_after (cs : list (list string)) (w : World) : World :=
  match cs with
  | [] => w
  | c :: rest =>
      match exec c w with
      | Some (_, w') => world_after rest w'
      | None => w
      end
  end.

Fixpoint outcome (cs : list (list string)) (w : World) : result unit :=
  match cs with
  | [] => Ok tt
  | c :: rest =>
      match exec c w with
      | Some (_, w') => outcome rest w'
      | None => Raise (OSError (hd_error c))
      end
  end.

Definition run_all (cs : list (list string)) : M unit :=
  for_ cs (fun c => subprocess_run c ;; ret tt).

(** [m] does nothing but issue the commands [cs], in order. *)
Definition issues (m : M unit) (cs : list (list string)) : Prop :=
  forall st, m st = run_all cs st.

(** Every command of [cs] can be started, in whatever world. *)
Definition commands_start (cs : list (list string)) : Prop :=
  forall c w, In c cs -> exec c w <> None.

(** The line can be printed, in whatever world. *)
Definition printable (line : string) : Prop :=
  forall w, exists w', stdout_write line w = Written w'.

Definition commands_issued (argv : list string) (w : World)
  : list (list string) :=
  commands_of (log (snd (run_script argv w))).

(** ** The templates of the script *)

Lemma append_empty_r (s : string) : s ++ "" = s.
Proof. induction s as [|c s IH]; cbn; [reflexivity | now rewrite IH]. Qed.

Lemma prefix_append (s t : string) : prefix s (s ++ t) = true.
Proof.
  induction s as [|c s IH]; cbn.
  - now destruct t.
  - destruct (ascii_dec c c) as [_|Hneq]; [exact IH | now destruct Hneq].
Qed.

Lemma format_banner (base : string) :
  format "Reading material design icons/symbols from base directory {md_dir}"
         [("md_dir", base)] = Ok (banner base).
Proof. unfold format, banner; cbn. now rewrite append_empty_r. Qed.

Lemma format_icon_outfile (name : string) :
  format "res/images/md-icons/{name}.png" [("name", name)]
  = Ok (icon_outfile name).
Proof. reflexivity. Qed.

Lemma format_icon_source (base group name : string) :
  format "{md_dir}/src/{group}/{name}/materialicons/24px.svg"
         [("md_dir", base); ("group", str group); ("name", name)]
  = Ok (icon_source base group name).
Proof. reflexivity. Qed.

Lemma format_symbol_outfile (name : string) :
  format "res/images/md-symbols/{symbol}.png" [("symbol", name)]
  = Ok (symbol_outfile name).
Proof. reflexivity. Qed.

Lemma format_symbol_source (base name : string) :
  format
    "{md_dir}/symbols/web/{symbol}/materialsymbolssharp/{symbol}_wght100_24px.svg"
    [("md_dir", base); ("symbol", name)]
  = Ok (symbol_source base name).
Proof. reflexivity. Qed.

(** ** The script issues a fixed list of commands *)

Lemma run_all_spec (cs : list (list string)) :
  forall st,
    run_all cs st
    = (outcome cs (world st),
       mkState (world_after cs (world st))
               (log st ++ sequential cs (world st))%list).
Proof.
  induction cs as [|c cs IH]; intros [w l].
  - cbn. now rewrite app_nil_r.
  - change (run_all (c :: cs))
      with ((subprocess_run c ;; ret tt) ;; run_all cs).
    unfold bind, subprocess_run, ret; cbn.
    destruct (exec c w) as [[rc w']|]; [|reflexivity].
    rewrite IH; cbn. now rewrite <- app_assoc.
Qed.

Lemma issues_nil : issues (ret tt) [].
Proof. intros st; reflexivity. Qed.

Lemma issues_run (c : list string) (k : M unit) (cs : list (list string)) :
  issues k cs -> issues (subprocess_run c ;; k) (c :: cs).
Proof.
  intros Hk [w l].
  change (run_all (c :: cs))
    with ((subprocess_run c ;; ret tt) ;; run_all cs).
  unfold bind, subprocess_run, ret; cbn.
  destruct (exec c w) as [[rc w']|]; [apply Hk | reflexivity].
Qed.

Lemma issues_seq (m m' : M unit) (cs cs' : list (list string)) :
  issues m cs -> issues m' cs' -> issues (m ;; m') (cs ++ cs')%list.
Proof.
  intros Hm Hm' st. unfold bind at 1. rewrite Hm. clear Hm m.
  revert st. induction cs as [|c cs IH]; intros [w l].
  - cbn. apply Hm'.
  - change (run_all ((c :: cs) ++ cs'))
      with ((subprocess_run c ;; ret tt) ;; run_all (cs ++ cs')).
    change (run_all (c :: cs))
      with ((subprocess_run c ;; ret tt) ;; run_all cs).
    unfold bind, subprocess_run, ret; cbn.
    destruct (exec c w) as [[rc w']|]; [|reflexivity].
    apply IH.
Qed.

Lemma issues_for {A} (xs : list A) (body : A -> M unit)
      (f : A -> list (list string)) :
  (forall x, issues (body x) (f x)) ->
  issues (for_ xs body) (flat_map f xs).
Proof.
  intros Hbody. induction xs as [|x xs IH]; cbn.
  - apply issues_nil.
  - apply issues_seq; [apply Hbody | apply IH].
Qed.

Lemma issues_lift {A} (r : result A) (v : A) (k : A -> M unit)
      (cs : list (list string)) :
  r = Ok v -> issues (k v) cs -> issues (x <- lift r ;; k x) cs.
Proof. intros -> Hk st. apply Hk. Qed.

Lemma convert_icon_issues (base group name : string) :
  issues (convert_icon base group name) (icon_commands base (group, name)).
Proof.
  unfold convert_icon.
  eapply issues_lift; [apply format_icon_outfile|].
  eapply issues_lift; [apply format_icon_source|].
  do 2 apply issues_run. apply issues_nil.
Qed.

Lemma convert_symbol_issues (base name : string) :
  issues (convert_symbol base name) (symbol_commands base name).
Proof.
  unfold convert_symbol.
  eapply issues_lift; [apply format_symbol_outfile|].
  eapply issues_lift; [apply format_symbol_source|].
  do 2 apply issues_run. apply issues_nil.
Qed.

Lemma icons_loop_issues (base : string) :
  issues (for_ ICONS (fun '(group, icons) =>
            for_ icons (fun name => convert_icon base group name)))
         (flat_map (icon_commands base) icon_entries).
Proof.
  change (flat_map (icon_commands base) icon_entries)
    with (flat_map (fun '(group, icons) =>
                      flat_map (fun name => icon_commands base (group, name))
                               icons) ICONS).
  apply issues_for. intros [group icons].
  apply issues_for. intros name. apply convert_icon_issues.
Qed.

Lemma symbols_loop_issues (base : string) :
  issues (for_ SYMBOLS (fun symbol => convert_symbol base symbol))
         (flat_map (symbol_commands base) SYMBOLS).
Proof. apply issues_for. intros name. apply convert_symbol_issues. Qed.

(** The state a run ends in, for an argument list that has [argv[1]]. *)
Lemma run_script_spec (argv : list string) (base : string) (w : World) :
  nth_error argv 1 = Some base ->
  run_script argv w
  = match stdout_write (banner base) w with
    | Written w0 =>
        (outcome (script_commands base) w0,
         mkState (world_after (script_commands base) w0)
           (Print (banner base) :: sequential (script_commands base) w0))
    | WriteFails e => (Raise (exn_of_write_error e), mkState w [])
    end.
Proof.
  intros Hargv. unfold run_script, main, sys_argv. rewrite Hargv.
  assert (Hrest : issues
            (subprocess_run ["mkdir"; "-p"; "res/images/md-icons"] ;;
             subprocess_run ["mkdir"; "-p"; "res/images/md-symbols"] ;;
             for_ ICONS (fun '(group, icons) =>
               for_ icons (fun name => convert_icon base group name)) ;;
             for_ SYMBOLS (fun symbol => convert_symbol base symbol))
            (script_commands base)).
  { do 2 apply issues_run.
    apply issues_seq; [apply icons_loop_issues | apply symbols_loop_issues]. }
  unfold bind at 1 2 3; cbn [ret lift]. rewrite format_banner.
  unfold print; cbn [world log app].
  destruct (stdout_write (banner base) w) as [w0|e]; [|reflexivity].
  rewrite Hrest, run_all_spec. reflexivity.
Qed.

Lemma run_script_printed (argv : list string) (base : string) (w w0 : World) :
  nth_error argv 1 = Some base ->
  stdout_write (banner base) w = Written w0 ->
  run_script argv w
  = (outcome (script_commands base) w0,
     mkState (world_after (script_commands base) w0)
       (Print (banner base) :: sequential (script_commands base) w0)).
Proof.
  intros Hargv Hw. now rewrite (run_script_spec argv base w Hargv), Hw.
Qed.

Lemma run_script_not_printed (argv : list string) (base : string)
      (w : World) (e : write_error) :
  nth_error argv 1 = Some base ->
  stdout_write (banner base) w = WriteFails e ->
  run_script argv w = (Raise (exn_of_write_error e), mkState w []).
Proof.
  intros Hargv Hw. now rewrite (run_script_spec argv base w Hargv), Hw.
Qed.

Lemma run_script_no_argument (argv : list string) (w : World) :
  nth_error argv 1 = None ->
  run_script argv w = (Raise IndexError, mkState w []).
Proof.
  intros Hargv. unfold run_script, main, sys_argv. now rewrite Hargv.
Qed.

(** ** Runs of a command list *)

Lemma commands_sequential_prefix (cs : list (list string)) :
  forall w, exists k, commands_of (sequential cs w) = firstn k cs.
Proof.
  induction cs as [|c cs IH]; intros w; cbn.
  - now exists 0.
  - destruct (exec c w) as [[rc w']|].
    + destruct (IH w') as [k Hk]. exists (S k). cbn. now rewrite Hk.
    + now exists 1.
Qed.

Lemma in_firstn {A} (x : A) (l : list A) :
  forall k, In x (firstn k l) -> In x l.
Proof.
  induction l as [|y l IH]; intros [|k]; cbn; try tauto.
  intros [H|H]; [now left | right; eauto].
Qed.

Lemma commands_sequential_incl (cs : list (list string)) (w : World)
      (c : list string) :
  In c (commands_of (sequential cs w)) -> In c cs.
Proof.
  destruct (commands_sequential_prefix cs w) as [k ->]. apply in_firstn.
Qed.

Lemma sequential_ok (cs : list (list string)) :
  forall w,
    outcome cs w = Ok tt
    <-> commands_of (sequential cs w) = cs
        /\ all_exited (sequential cs w) = true.
Proof.
  induction cs as [|c cs IH]; intros w; cbn; [tauto|].
  destruct (exec c w) as [[rc w']|]; cbn.
  - rewrite IH. split.
    + intros [Hc He]. split; [now rewrite Hc | exact He].
    + intros [Hc He]. injection Hc as Hc. split; [exact Hc | exact He].
  - split; [discriminate | intros [_ H]; discriminate H].
Qed.


Lemma sequential_all_start (cs : list (list string)) :
  commands_start cs -> forall w, outcome cs w = Ok tt.
Proof.
  induction cs as [|c cs IH]; intros Hstart w; cbn; [reflexivity|].
  destruct (exec c w) as [[rc w']|] eqn:E.
  - apply IH. intros c' v Hin. apply Hstart. now right.
  - exfalso. apply (Hstart c w); [now left | exact E].
Qed.

Lemma commands_issued_spec (argv : list string) (base : string) (w : World) :
  nth_error argv 1 = Some base ->
  commands_issued argv w
  = match stdout_write (banner base) w with
    | Written w0 => commands_of (sequential (script_commands base) w0)
    | WriteFails _ => []
    end.
Proof.
  intros Hargv. unfold commands_issued.
  rewrite (run_script_spec argv base w Hargv).
  now destruct (stdout_write (banner base) w).
Qed.

Lemma issued_prefix (argv : list string) (base : string) (w : World) :
  nth_error argv 1 = Some base ->
  exists k, commands_issued argv w = firstn k (script_commands base).
Proof.
  intros Hargv. rewrite (commands_issued_spec argv base w Hargv).
  destruct (stdout_write (banner base) w) as [w0|e].
  - apply commands_sequential_prefix.
  - now exists 0.
Qed.

Lemma issued_in_script (argv : list string) (base : string) (w : World)
      (c : list string) :
  nth_error argv 1 = Some base ->
  In c (commands_issued argv w) -> In c (script_commands base).
Proof.
  intros Hargv. destruct (issued_prefix argv base w Hargv) as [k ->].
  apply in_firstn.
Qed.

(** A run that ends normally has issued every command, and every
    process has exited. *)
Lemma ok_iff_complete (argv : list string) (base : string) (w : World) :
  nth_error argv 1 = Some base ->
  fst (run_script argv w) = Ok tt
  <-> commands_issued argv w = script_commands base
      /\ all_exited (log (snd (run_script argv w))) = true.
Proof.
  intros Hargv. unfold commands_issued.
  rewrite (run_script_spec argv base w Hargv).
  destruct (stdout_write (banner base) w) as [w0|e]; cbn [fst snd log].
  - apply sequential_ok.
  - split; [now destruct e | intros [H _]; discriminate H].
Qed.

Lemma issued_all (argv : list string) (base : string) (w : World) :
  nth_error argv 1 = Some base ->
  fst (run_script argv w) = Ok tt ->
  commands_issued argv w = script_commands base.
Proof.
  intros Hargv Hok. now apply (ok_iff_complete argv base w Hargv).
Qed.

(** A run in which the line is printed and every command of the script
    can be started ends normally. *)
Lemma run_ok (argv : list string) (base : string) (w w0 : World) :
  nth_error argv 1 = Some base ->
  stdout_write (banner base) w = Written w0 ->
  commands_start (script_commands base) ->
  fst (run_script argv w) = Ok tt.
Proof.
  intros Hargv Hw Hstart.
  rewrite (run_script_printed argv base w w0 Hargv Hw); cbn [fst].
  now apply sequential_all_start.
Qed.

Lemma icon_commands_in_script (base group name : string)
      (icons : list string) :
  In (group, icons) ICONS -> In name icons ->
  incl (icon_commands base (group, name)) (script_commands base).
Proof.
  intros Hg Hn c Hc. unfold script_commands, conversion_commands.
  do 2 right. apply in_or_app; left.
  apply in_flat_map. exists (group, name). split; [|exact Hc].
  unfold icon_entries. apply in_flat_map. exists (group, icons).
  split; [exact Hg | now apply in_map].
Qed.

Lemma symbol_commands_in_script (base name : string) :
  In name SYMBOLS ->
  incl (symbol_commands base name) (script_commands base).
Proof.
  intros Hn c Hc. unfold script_commands, conversion_commands.
  do 2 right. apply in_or_app; right.
  apply in_flat_map. now exists name.
Qed.

(** Case analysis over the commands of the script and over the entries
    of the catalogs. *)
Ltac cases_of H :=
  cbn [In] in H; repeat (destruct H as [H|H]); try contradiction.

Ltac each_command H :=
  cbv [script_commands conversion_commands icon_entries icon_commands
       symbol_commands ICONS SYMBOLS flat_map map app] in H;
  cases_of H; subst.

Ltac each_icon Hg Hn :=
  cbv [ICONS] in Hg; cases_of Hg; injection Hg as <- <-;
  cases_of Hn; subst.

Ltac each_symbol Hn :=
  cbv [SYMBOLS] in Hn; cases_of Hn; subst.

(** ** Source paths *)

(** C1.  For every group of the icon catalog and every name of its
    sequence, the source path handed to the rasterizer is exactly
    [<base>/src/<group>/<name>/materialicons/24px.svg], where [<base>] is
    [argv[1]]: in a run that ends normally the rasterizer has been called
    with that source for that icon, and in every run a [convert] command
    writing that icon's file has that path as its source argument. *)
Theorem icon_source_path (argv : list string) (base : string) (w : World)
        (group : string) (icons : list string) (name : string) :
  nth_error argv 1 = Some base ->
  In (group, icons) ICONS ->
  In name icons ->
  (fst (run_script argv w) = Ok tt ->
   In (rasterize (base ++ "/src/" ++ group ++ "/" ++ name
                       ++ "/materialicons/24px.svg")
                 (icon_outfile name))
      (commands_issued argv w))
  /\ (forall c,
        In c (commands_issued argv w) ->
        hd_error c = Some "convert" ->
        last c "" = icon_outfile name ->
        nth_error c 1
        = Some (base ++ "/src/" ++ group ++ "/" ++ name
                     ++ "/materialicons/24px.svg")).
Proof.
  intros Hargv Hg Hn. split.
  - intros Hok. rewrite (issued_all argv base w Hargv Hok).
    apply (icon_commands_in_script base group name icons Hg Hn). now left.
  - intros c Hc Hhd Hlast.
    apply (issued_in_script argv base w c Hargv) in Hc.
    each_icon Hg Hn; each_command Hc;
      solve [discriminate Hhd | discriminate Hlast | reflexivity].
Qed.

(** C2.  For every name of the symbol catalog, the source path handed to
    the rasterizer is exactly
    [<base>/symbols/web/<name>/materialsymbolssharp/<name>_wght100_24px.svg],
    where [<base>] is [argv[1]]: in a run that ends normally the
    rasterizer has been called with that source for that symbol, and in
    every run a [convert] command writing that symbol's file has that
    path as its source argument. *)
Theorem symbol_source_path (argv : list string) (base : string) (w : World)
        (name : string) :
  nth_error argv 1 = Some base ->
  In name SYMBOLS ->
  (fst (run_script argv w) = Ok tt ->
   In (rasterize (base ++ "/symbols/web/" ++ name
                       ++ "/materialsymbolssharp/" ++ name
                       ++ "_wght100_24px.svg")
                 (symbol_outfile name))
      (commands_issued argv w))
  /\ (forall c,
        In c (commands_issued argv w) ->
        hd_error c = Some "convert" ->
        last c "" = symbol_outfile name ->
        nth_error c 1
        = Some (base ++ "/symbols/web/" ++ name
                     ++ "/materialsymbolssharp/" ++ name
                     ++ "_wght100_24px.svg")).
Proof.
  intros Hargv Hn. split.
  - intros Hok. rewrite (issued_all argv base w Hargv Hok).
    apply (symbol_commands_in_script base name Hn). now left.
  - intros c Hc Hhd Hlast.
    apply (issued_in_script argv base w c Hargv) in Hc.
    each_symbol Hn; each_command Hc;
      solve [discriminate Hhd | discriminate Hlast | reflexivity].
Qed.

(** ** Shape of the commands *)

Lemma script_command_cases (base : string) (c : list string) :
  In c (script_commands base) ->
  c = mkdir_p icons_dir \/ c = mkdir_p symbols_dir
  \/ (exists group icons name,
        In (group, icons) ICONS /\ In name icons
        /\ (c = rasterize (icon_source base group name) (icon_outfile name)
            \/ c = strip (icon_outfile name)))
  \/ (exists name,
        In name SYMBOLS
        /\ (c = rasterize (symbol_source base name) (symbol_outfile name)
            \/ c = strip (symbol_outfile name))).
Proof.
  intros [H|[H|H]]; [now left | now right; left | right; right].
  apply in_app_or in H as [H|H]; [left | right].
  - apply in_flat_map in H as [[group name] [Hentry Hc]].
    apply in_flat_map in Hentry as [[group' icons] [Hg Hn]].
    apply in_map_iff in Hn as [name' [Heq Hn]].
    injection Heq as -> ->.
    exists group, icons, name. repeat split; try assumption.
    destruct Hc as [Hc|[Hc|[]]]; [now left | now right].
  - apply in_flat_map in H as [name [Hn Hc]].
    exists name. split; [assumption|].
    destruct Hc as [Hc|[Hc|[]]]; [now left | now right].
Qed.

(** C3.  Every [convert] command the script issues is exactly
    [convert <src> -density 576 -background none -negate <out>], with
    [<out>] the file [res/images/md-icons/<name>.png] of an icon-catalog
    entry or [res/images/md-symbols/<name>.png] of a symbol-catalog
    entry; and in a run that ends normally, each catalog entry has got
    that command. *)
Theorem rasterizer_parameters (argv : list string) (base : string)
        (w : World) :
  nth_error argv 1 = Some base ->
  (forall c,
      In c (commands_issued argv w) ->
      hd_error c = Some "convert" ->
      exists src out,
        c = ["convert"; src; "-density"; "576"; "-background"; "none";
             "-negate"; out]
        /\ catalog_output out)
  /\ (fst (run_script argv w) = Ok tt ->
      (forall group icons name,
          In (group, icons) ICONS -> In name icons ->
          In ["convert"; icon_source base group name;
              "-density"; "576"; "-background"; "none"; "-negate";
              "res/images/md-icons/" ++ name ++ ".png"]
             (commands_issued argv w))
      /\ (forall name,
             In name SYMBOLS ->
             In ["convert"; symbol_source base name;
                 "-density"; "576"; "-background"; "none"; "-negate";
                 "res/images/md-symbols/" ++ name ++ ".png"]
                (commands_issued argv w))).
Proof.
  intros Hargv. split.
  - intros c Hc Hhd. apply (issued_in_script argv base w c Hargv) in Hc.
    apply script_command_cases in Hc
      as [->|[->|[(g & icons & n & Hg & Hn & [->| ->])
                 |(n & Hn & [->| ->])]]];
      try discriminate Hhd.
    + eexists _, _. split; [reflexivity|]. left. now exists g, icons, n.
    + eexists _, _. split; [reflexivity|]. right. now exists n.
  - intros Hok. rewrite (issued_all argv base w Hargv Hok). split.
    + intros group icons name Hg Hn.
      apply (icon_commands_in_script base group name icons Hg Hn). now left.
    + intros name Hn.
      apply (symbol_commands_in_script base name Hn). now left.
Qed.

(** C4.  Every command the script issues is one of: [mkdir -p] on one of
    the two output directories; [convert] reading a path that has the
    base directory as a prefix and writing the file of a catalog entry;
    [mogrify -strip] on the file of a catalog entry.  So no other path is
    handed to a tool, and no file is written for a name outside the
    catalogs.  (The file [mogrify] rewrites in place is an output file.) *)
Theorem paths_confined (argv : list string) (base : string) (w : World)
        (c : list string) :
  nth_error argv 1 = Some base ->
  In c (commands_issued argv w) ->
  (c = ["mkdir"; "-p"; "res/images/md-icons"]
   \/ c = ["mkdir"; "-p"; "res/images/md-symbols"])
  \/ (exists src out,
         c = rasterize src out
         /\ prefix base src = true /\ catalog_output out)
  \/ (exists out, c = strip out /\ catalog_output out).
Proof.
  intros Hargv Hc. apply (issued_in_script argv base w c Hargv) in Hc.
  apply script_command_cases in Hc
    as [->|[->|[(g & icons & n & Hg & Hn & [->| ->])
               |(n & Hn & [->| ->])]]].
  - left; now left.
  - left; now right.
  - right; left. eexists _, _. split; [reflexivity|]. split.
    + apply prefix_append.
    + left. now exists g, icons, n.
  - right; right. eexists. split; [reflexivity|].
    left. now exists g, icons, n.
  - right; left. eexists _, _. split; [reflexivity|]. split.
    + apply prefix_append.
    + right. now exists n.
  - right; right. eexists. split; [reflexivity|]. right. now exists n.
Qed.

(** ** Failures *)

(** C5, as the code has it.  The return code of a process is never
    looked at: once the banner of line 27 is printed, and provided every
    command of the script can be started, the script raises nothing and
    issues the whole command list whatever return codes the processes
    give, so for every catalog entry both the [convert] and the
    [mogrify -strip] command.  Nothing is asked of other programs. *)
Theorem return_codes_ignored (argv : list string) (base : string)
        (w w0 : World) :
  nth_error argv 1 = Some base ->
  stdout_write (banner base) w = Written w0 ->
  (forall c w', In c (script_commands base) -> exec c w' <> None) ->
  fst (run_script argv w) = Ok tt
  /\ commands_issued argv w = script_commands base
  /\ (forall group icons name,
         In (group, icons) ICONS -> In name icons ->
         In (rasterize (icon_source base group name) (icon_outfile name))
            (commands_issued argv w)
         /\ In (strip (icon_outfile name)) (commands_issued argv w))
  /\ (forall name,
         In name SYMBOLS ->
         In (rasterize (symbol_source base name) (symbol_outfile name))
            (commands_issued argv w)
         /\ In (strip (symbol_outfile name)) (commands_issued argv w)).
Proof.
  intros Hargv Hw Hstart.
  pose proof (run_ok argv base w w0 Hargv Hw Hstart) as Hok.
  rewrite (issued_all argv base w Hargv Hok).
  split; [exact Hok|]. split; [reflexivity|]. split.
  - intros group icons name Hg Hn.
    split; apply (icon_commands_in_script base group name icons Hg Hn);
      cbn; tauto.
  - intros name Hn.
    split; apply (symbol_commands_in_script base name Hn); cbn; tauto.
Qed.

(** C6.  Without [argv[1]] the script raises [IndexError] where it reads
    the argument: nothing has been printed, no command has been issued
    and the world is as it was. *)
Theorem missing_argument (argv : list string) (w : World) :
  nth_error argv 1 = None ->
  run_script argv w = (Raise IndexError, mkState w [])
  /\ commands_issued argv w = [].
Proof.
  intros Hargv. unfold commands_issued.
  rewrite (run_script_no_argument argv w Hargv). now split.
Qed.

(** ** Order of the commands *)

Lemma sequential_completed (cs : list (list string)) :
  forall w, completed_but_last (sequential cs w) = true.
Proof.
  induction cs as [|c cs IH]; intros w; [reflexivity|].
  cbn [sequential]. destruct (exec c w) as [[rc w']|]; [|reflexivity].
  specialize (IH w'). cbn [completed_but_last].
  now destruct (sequential cs w').
Qed.

(** C7.  The first two commands are [mkdir -p res/images/md-icons] and
    [mkdir -p res/images/md-symbols]: a conversion command is issued only
    after both have run and exited, and once the banner of line 27 is
    printed, whatever their return codes (so also when the directory is
    already there) nothing is raised and the run goes on with the
    conversions, from the world the second [mkdir] left. *)
Theorem directories_prepared_first (argv : list string) (base : string)
        (w : World) :
  nth_error argv 1 = Some base ->
  (forall c,
      In c (commands_issued argv w) ->
      In c (conversion_commands base) ->
      exists rc1 rc2 rest,
        log (snd (run_script argv w))
        = Print (banner base)
          :: Run ["mkdir"; "-p"; "res/images/md-icons"] (Some rc1)
          :: Run ["mkdir"; "-p"; "res/images/md-symbols"] (Some rc2)
          :: rest)
  /\ (forall w0 rc1 w1 rc2 w2,
         stdout_write (banner base) w = Written w0 ->
         exec ["mkdir"; "-p"; "res/images/md-icons"] w0 = Some (rc1, w1) ->
         exec ["mkdir"; "-p"; "res/images/md-symbols"] w1 = Some (rc2, w2) ->
         run_script argv w
         = (outcome (conversion_commands base) w2,
            mkState (world_after (conversion_commands base) w2)
              (Print (banner base)
               :: Run ["mkdir"; "-p"; "res/images/md-icons"] (Some rc1)
               :: Run ["mkdir"; "-p"; "res/images/md-symbols"] (Some rc2)
               :: sequential (conversion_commands base) w2))).
Proof.
  intros Hargv. split.
  - intros c Hc Hconv. unfold commands_issued in Hc.
    rewrite (run_script_spec argv base w Hargv) in *.
    destruct (stdout_write (banner base) w) as [w0|e];
      cbn [snd log] in *; [|destruct Hc].
    unfold script_commands, mkdir_p, icons_dir, symbols_dir in *.
    cbn [sequential commands_of] in *.
    destruct (exec _ w0) as [[rc1 w1]|].
    + destruct (exec _ w1) as [[rc2 w2]|].
      * now exists rc1, rc2, (sequential (conversion_commands base) w2).
      * exfalso. each_command Hconv; cases_of Hc; discriminate Hc.
    + exfalso. each_command Hconv; cases_of Hc; discriminate Hc.
  - intros w0 rc1 w1 rc2 w2 Hw E1 E2.
    rewrite (run_script_printed argv base w w0 Hargv Hw).
    unfold script_commands, mkdir_p, icons_dir, symbols_dir.
    cbn [sequential outcome world_after]. now rewrite E1, E2.
Qed.

(** C8.  Once the banner of line 27 is printed, the log of a run is that
    line followed by the sequential run of: the two [mkdir -p]; for each
    icon entry in catalog order its [convert] then its [mogrify -strip];
    then the same for each symbol in catalog order.  Each command starts
    in the world its predecessor left on exit, and every process but
    possibly the last has exited before the next command is issued.
    When the line cannot be printed nothing is issued at all. *)
Theorem strictly_sequential (argv : list string) (base : string)
        (w : World) :
  nth_error argv 1 = Some base ->
  let commands :=
    ([ ["mkdir"; "-p"; "res/images/md-icons"];
       ["mkdir"; "-p"; "res/images/md-symbols"] ]
     ++ flat_map (fun '(group, icons) =>
          flat_map (fun name =>
            [ rasterize (icon_source base group name) (icon_outfile name);
              strip (icon_outfile name) ]) icons) ICONS
     ++ flat_map (fun name =>
          [ rasterize (symbol_source base name) (symbol_outfile name);
            strip (symbol_outfile name) ]) SYMBOLS)%list in
  log (snd (run_script argv w))
  = match stdout_write (banner base) w with
    | Written w0 => Print (banner base) :: sequential commands w0
    | WriteFails _ => []
    end
  /\ world (snd (run_script argv w))
     = match stdout_write (banner base) w with
       | Written w0 => world_after commands w0
       | WriteFails _ => w
       end
  /\ completed_but_last (log (snd (run_script argv w))) = true
  /\ (fst (run_script argv w) = Ok tt -> commands_issued argv w = commands).
Proof.
  intros Hargv commands.
  change commands with (script_commands base).
  split; [|split; [|split]].
  - rewrite (run_script_spec argv base w Hargv).
    now destruct (stdout_write (banner base) w).
  - rewrite (run_script_spec argv base w Hargv).
    now destruct (stdout_write (banner base) w).
  - rewrite (run_script_spec argv base w Hargv).
    destruct (stdout_write (banner base) w) as [w0|e]; [|reflexivity].
    cbn [snd log].
    pose proof (sequential_completed (script_commands base) w0) as H.
    cbn [completed_but_last].
    now destruct (sequential (script_commands base) w0).
  - intros Hok. apply (issued_all argv base w Hargv Hok).
Qed.

(** C9.  With the same argument, a second run started in the world the
    first one left sets out on the same command list, which depends on
    [argv[1]] only.  When neither run is cut short both issue exactly
    that list, in the same order.  And when the banner of line 27 can be
    printed and every command of the script can be started, neither run
    is cut short: whatever the first run left behind, the second raises
    nothing and issues the same commands again. *)
Theorem rerun_same_commands (argv : list string) (base : string)
        (w : World) :
  nth_error argv 1 = Some base ->
  let first := run_script argv w in
  let second := run_script argv (world (snd first)) in
  (exists k1 k2,
      commands_of (log (snd first)) = firstn k1 (script_commands base)
      /\ commands_of (log (snd second)) = firstn k2 (script_commands base))
  /\ (fst first = Ok tt -> fst second = Ok tt ->
      commands_of (log (snd second)) = commands_of (log (snd first)))
  /\ (printable (banner base) ->
      commands_start (script_commands base) ->
      fst first = Ok tt
      /\ fst second = Ok tt
      /\ commands_of (log (snd first)) = script_commands base
      /\ commands_of (log (snd second)) = script_commands base).
Proof.
  intros Hargv first second.
  set (w1 := world (snd first)) in *.
  assert (Hboth : forall v,
             fst (run_script argv v) = Ok tt ->
             commands_of (log (snd (run_script argv v)))
             = script_commands base).
  { intros v Hok. apply (issued_all argv base v Hargv Hok). }
  split; [|split].
  - destruct (issued_prefix argv base w Hargv) as [k1 H1].
    destruct (issued_prefix argv base w1 Hargv) as [k2 H2].
    now exists k1, k2.
  - intros H1 H2. subst first second.
    now rewrite (Hboth w H1), (Hboth w1 H2).
  - intros Hprint Hstart.
    destruct (Hprint w) as [v Hv]. destruct (Hprint w1) as [v1 Hv1].
    pose proof (run_ok argv base w v Hargv Hv Hstart) as H1.
    pose proof (run_ok argv base w1 v1 Hargv Hv1 Hstart) as H2.
    subst first second.
    split; [exact H1|]. split; [exact H2|].
    split; [exact (Hboth w H1) | exact (Hboth w1 H2)].
Qed.

(** ** Output files *)

Lemma distinct_NoDup (l : list string) : distinct l = true -> NoDup l.
Proof.
  induction l as [|x l IH]; cbn; [constructor|].
  intros H. apply andb_true_iff in H as [Hx Hl].
  constructor; [|now apply IH].
  intros Hin. apply negb_true_iff in Hx.
  assert (existsb (String.eqb x) l = true) as Hex; [|congruence].
  apply existsb_exists. exists x. split; [exact Hin | apply String.eqb_refl].
Qed.

Lemma outfiles_firstn_incl (cs : list (list string)) (k : nat) :
  incl (outfiles (firstn k cs)) (outfiles cs).
Proof.
  intros p Hp. apply in_flat_map in Hp as [c [Hc Hp]].
  apply in_flat_map. exists c. split; [|exact Hp].
  now apply in_firstn in Hc.
Qed.

Lemma outfiles_firstn_NoDup (cs : list (list string)) :
  NoDup (outfiles cs) -> forall k, NoDup (outfiles (firstn k cs)).
Proof.
  unfold outfiles.
  induction cs as [|c cs IH]; intros Hnd [|k]; cbn; try constructor.
  cbn in Hnd. apply NoDup_app_remove_l in Hnd as Hcs.
  specialize (IH Hcs k).
  destruct c as [|prog args]; [exact IH|].
  destruct (String.eqb prog "convert") eqn:E.
  - apply String.eqb_eq in E as ->. cbn [app] in *.
    apply NoDup_cons_iff in Hnd as [Hnotin _].
    constructor; [|exact IH].
    intros Hin. apply Hnotin. now apply (outfiles_firstn_incl cs k).
  - assert ((match prog with
             | "convert" => [last (prog :: args) ""]
             | _ => []
             end) = []) as Hnil.
    { apply String.eqb_neq in E. clear -E.
      repeat (match goal with
              | |- context [match ?x with _ => _ end] => destruct x
              end; try reflexivity).
      now destruct E. }
    now rewrite Hnil.
Qed.

(** C10.  Icon names are unique across the groups of [ICONS], symbol
    names are unique in [SYMBOLS], the names in both catalogs are
    [play_arrow], [stop] and [drag_indicator], an icon file is never a
    symbol file, and so the files written by the [convert] commands of a
    run are pairwise distinct. *)
Theorem output_files_distinct :
  NoDup icon_names
  /\ NoDup SYMBOLS
  /\ filter (fun name => existsb (String.eqb name) SYMBOLS) icon_names
     = ["play_arrow"; "stop"; "drag_indicator"]
  /\ (forall name name', icon_outfile name <> symbol_outfile name')
  /\ NoDup (map icon_outfile icon_names ++ map symbol_outfile SYMBOLS)%list
  /\ (forall argv w, NoDup (outfiles (commands_issued argv w))).
Proof.
  split; [now apply distinct_NoDup|].
  split; [now apply distinct_NoDup|].
  split; [reflexivity|].
  split; [intros name name'; cbv [icon_outfile symbol_outfile icons_dir
                                  symbols_dir append]; discriminate|].
  split; [now apply distinct_NoDup|].
  intros argv w. destruct (nth_error argv 1) as [base|] eqn:Hargv.
  - destruct (issued_prefix argv base w Hargv) as [k ->].
    apply outfiles_firstn_NoDup. now apply distinct_NoDup.
  - unfold commands_issued.
    rewrite (run_script_no_argument argv w Hargv). constructor.
Qed.

(** ** How a run ends *)

(** X1.  Of the argument list only [argv[1]] is read: two argument lists
    with the same [argv[1]] (or both without one) give the same run,
    whatever the program name and any further arguments are. *)
Theorem only_argv1_matters (argv argv' : list string) (w : World) :
  nth_error argv 1 = nth_error argv' 1 ->
  run_script argv w = run_script argv' w.
Proof.
  intros H. unfold run_script, main, sys_argv. now rewrite H.
Qed.


(** X3.  With the argument there, a run ends normally exactly when it
    has issued every command of the script and every process it started
    has exited: a normal end never hides a command that was skipped. *)
Theorem success_iff_complete (argv : list string) (base : string)
        (w : World) :
  nth_error argv 1 = Some base ->
  fst (run_script argv w) = Ok tt
  <-> commands_issued argv w = script_commands base
      /\ all_exited (log (snd (run_script argv w))) = true.
Proof.
  apply ok_iff_complete.
Qed.


(** ** Output file names *)

Lemma append_length (s t : string) :
  String.length (s ++ t) = String.length s + String.length t.
Proof. induction s as [|c s IH]; cbn; [reflexivity | now rewrite IH]. Qed.

Lemma append_cancel_r (t : string) :
  forall s s', s ++ t = s' ++ t -> s = s'.
Proof.
  induction s as [|c s IH]; intros [|c' s']; cbn; intros H.
  - reflexivity.
  - apply (f_equal String.length) in H. cbn in H.
    rewrite append_length in H. lia.
  - apply (f_equal String.length) in H. cbn in H.
    rewrite append_length in H. lia.
  - injection H as -> H. f_equal. now apply IH.
Qed.

(** X6.  The output file name determines the name it was built from:
    two names that differ never give the same file in
    [res/images/md-icons], nor in [res/images/md-symbols], whatever the
    names are. *)
Theorem outfile_injective (name name' : string) :
  (format "res/images/md-icons/{name}.png" [("name", name)]
   = format "res/images/md-icons/{name}.png" [("name", name')]
   -> name = name')
  /\ (format "res/images/md-symbols/{symbol}.png" [("symbol", name)]
      = format "res/images/md-symbols/{symbol}.png" [("symbol", name')]
      -> name = name').
Proof.
  split; intros H.
  - rewrite !format_icon_outfile in H. injection H as H.
    now apply append_cancel_r in H.
  - rewrite !format_symbol_outfile in H. injection H as H.
    now apply append_cancel_r in H.
Qed.

(** ** Each conversion is a [convert] and its [mogrify] *)

Lemma script_commands_tasks (base : string) :
  script_commands base
  = mkdir_p icons_dir :: mkdir_p symbols_dir
    :: flat_map task_commands (tasks base).
Proof. reflexivity. Qed.

Lemma tasks_split_rasterize (ts : list (string * string)) :
  forall l1 src out l2,
    flat_map task_commands ts = (l1 ++ rasterize src out :: l2)%list ->
    exists l2', l2 = strip out :: l2'.
Proof.
  induction ts as [|[s o] ts IH]; intros l1 src out l2 H; cbn in H.
  - now destruct l1.
  - destruct l1 as [|x [|y l1]]; cbn in H.
    + injection H as _ <- <-. now eexists.
    + injection H as _ H. discriminate H.
    + injection H as _ _ H. now apply IH in H.
Qed.

Lemma tasks_split_strip (ts : list (string * string)) :
  forall l1 out l2,
    flat_map task_commands ts = (l1 ++ strip out :: l2)%list ->
    exists l0 src, l1 = (l0 ++ [rasterize src out])%list.
Proof.
  induction ts as [|[s o] ts IH]; intros l1 out l2 H; cbn in H.
  - now destruct l1.
  - destruct l1 as [|x [|y l1]]; cbn in H.
    + discriminate H.
    + injection H as <- <- _. now exists [], s.
    + injection H as <- <- H. apply IH in H as (l0 & src & ->).
      now exists (rasterize s o :: strip o :: l0), src.
Qed.

Lemma sequential_split (cs : list (list string)) :
  forall w l1 c rc l2,
    sequential cs w = (l1 ++ Run c (Some rc) :: l2)%list ->
    exists cs1 cs2 w',
      cs = (cs1 ++ c :: cs2)%list /\ l2 = sequential cs2 w'.
Proof.
  induction cs as [|c0 cs IH]; intros w l1 c rc l2 H; cbn in H.
  - now destruct l1.
  - destruct (exec c0 w) as [[rc0 w0]|].
    + destruct l1 as [|e l1]; cbn in H.
      * injection H as -> _ <-. now exists [], cs, w0.
      * injection H as _ H. apply IH in H as (cs1 & cs2 & w' & -> & ->).
        now exists (c0 :: cs1), cs2, w'.
    + destruct l1 as [|e [|e' l1]]; discriminate H.
Qed.

(** X7.  Whenever a [convert] process has exited, whatever its return
    code, the next thing the script does is call [mogrify -strip] on the
    file that [convert] was told to write. *)
Theorem strip_after_every_convert (argv : list string) (base : string)
        (w : World) (l1 l2 : list event) (src out : string) (rc : Z) :
  nth_error argv 1 = Some base ->
  log (snd (run_script argv w))
  = (l1 ++ Run (rasterize src out) (Some rc) :: l2)%list ->
  exists status l2', l2 = Run (strip out) status :: l2'.
Proof.
  intros Hargv. rewrite (run_script_spec argv base w Hargv).
  remember (script_commands base) as cs eqn:Hcs.
  destruct (stdout_write (banner base) w) as [w0|e0]; cbn [snd log];
    intros H; [|now destruct l1].
  destruct l1 as [|e l1]; [discriminate H|].
  injection H as _ H.
  apply sequential_split in H as (cs1 & cs2 & w' & -> & ->).
  rewrite script_commands_tasks in Hcs. symmetry in Hcs.
  remember (flat_map task_commands (tasks base)) as body eqn:Hbody.
  unfold mkdir_p, rasterize in Hcs.
  destruct cs1 as [|x [|y cs1]]; cbn [app] in Hcs; try discriminate Hcs.
  injection Hcs as _ _ Hcs. subst body.
  apply tasks_split_rasterize in Hcs as (cs2' & ->). cbn [sequential].
  destruct (exec (strip out) w') as [[rc' w'']|]; eauto.
Qed.

(** X8.  [mogrify -strip] is issued on a file only right after the
    [convert] command that writes that file, also in a run that is cut
    short. *)
Theorem strip_only_after_its_convert (argv : list string) (base : string)
        (w : World) (l1 l2 : list (list string)) (out : string) :
  nth_error argv 1 = Some base ->
  commands_issued argv w = (l1 ++ strip out :: l2)%list ->
  exists l0 src, l1 = (l0 ++ [rasterize src out])%list.
Proof.
  intros Hargv. destruct (issued_prefix argv base w Hargv) as [k ->].
  intros H.
  pose proof (firstn_skipn k (script_commands base)) as Hcs.
  rewrite H, <- app_assoc in Hcs. cbn [app] in Hcs.
  rewrite script_commands_tasks in Hcs.
  remember (flat_map task_commands (tasks base)) as body eqn:Hbody.
  unfold mkdir_p, strip in Hcs.
  destruct l1 as [|x [|y l1]]; cbn [app] in Hcs; try discriminate Hcs.
  injection Hcs as -> -> Hcs. subst body. symmetry in Hcs.
  apply tasks_split_strip in Hcs as (l0 & src & ->).
  now exists (["mkdir"; "-p"; icons_dir] :: ["mkdir"; "-p"; symbols_dir]
              :: l0), src.
Qed.

End Script.

Arguments mkState {World} world log.
Arguments world {World} s.
Arguments log {World} s.
Arguments run_script {World} exec stdout_write argv w.
Arguments commands_issued {World} exec stdout_write argv w.
Arguments sequential {World} exec cs w.
Arguments world_after {World} exec cs w.
Arguments outcome {World} exec cs w.
Arguments commands_start {World} exec cs.
Arguments printable {World} stdout_write line.

(** ** Return codes *)

Lemma relabel_sequential {World : Type} (f : list string -> Z -> Z)
      (exec : list string -> World -> option (Z * World))
      (cs : list (list string)) :
  forall w,
    outcome (relabel f exec) cs w = outcome exec cs w
    /\ world_after (relabel f exec) cs w = world_after exec cs w
    /\ commands_of (sequential (relabel f exec) cs w)
       = commands_of (sequential exec cs w).
Proof.
  induction cs as [|c cs IH]; intros w; cbn; [now repeat split|].
  unfold relabel at 1 3 5. destruct (exec c w) as [[rc w']|]; cbn.
  - destruct (IH w') as (-> & -> & ->). now repeat split.
  - now repeat split.
Qed.

(** X5.  Return codes have no influence on a run: replace every return
    code by any other value and the script issues the same commands, ends
    the same way and leaves the same world. *)
Theorem return_code_noninterference {World : Type}
        (f : list string -> Z -> Z)
        (exec : list string -> World -> option (Z * World))
        (stdout_write : string -> World -> write_result World)
        (argv : list string) (w : World) :
  fst (run_script (relabel f exec) stdout_write argv w)
  = fst (run_script exec stdout_write argv w)
  /\ commands_issued (relabel f exec) stdout_write argv w
     = commands_issued exec stdout_write argv w
  /\ world (snd (run_script (relabel f exec) stdout_write argv w))
     = world (snd (run_script exec stdout_write argv w)).
Proof.
  unfold commands_issued.
  destruct (nth_error argv 1) as [base|] eqn:Hargv.
  - rewrite !(run_script_spec _ _ _ argv base w Hargv).
    destruct (stdout_write (banner base) w) as [w0|e];
      cbn [fst snd world log commands_of]; [|now repeat split].
    destruct (relabel_sequential f exec (script_commands base) w0)
      as (Ho & Hw & Hc).
    split; [exact Ho|]. split; [exact Hc | exact Hw].
  - rewrite !(run_script_no_argument _ _ _ argv w Hargv). now repeat split.
Qed.

(** ** The properties on concrete runs *)

Lemma stdout_ok_printable {World : Type} (line : string) :
  printable (@stdout_ok World) line.
Proof. intros w. now exists w. Qed.

Lemma tools_fail_start (base : string) :
  commands_start tools_fail (script_commands base).
Proof.
  intros c w Hin.
  apply script_command_cases in Hin
    as [->|[->|[(g & icons & n & _ & _ & [->| ->])
               |(n & _ & [->| ->])]]]; discriminate.
Qed.

Lemma file_system_start (base : string) :
  commands_start file_system (script_commands base).
Proof.
  intros c w Hin.
  apply script_command_cases in Hin
    as [->|[->|[(g & icons & n & _ & _ & [->| ->])
               |(n & _ & [->| ->])]]]; cbn; try discriminate.
  all: now destruct (existsb _ w).
Qed.

Lemma icon_source_path_witness :
  nth_error example_argv 1 = Some "/md"
  /\ In ("av", ["play_arrow"; "pause"; "stop"]) ICONS
  /\ In "pause" ["play_arrow"; "pause"; "stop"]
  /\ fst (run_script all_succeed stdout_ok example_argv tt) = Ok tt
  /\ In (rasterize "/md/src/av/pause/materialicons/24px.svg"
                   "res/images/md-icons/pause.png")
        (commands_issued all_succeed stdout_ok example_argv tt).
Proof.
  assert (Hg : In ("av", ["play_arrow"; "pause"; "stop"]) ICONS)
    by (left; reflexivity).
  assert (Hn : In "pause" ["play_arrow"; "pause"; "stop"])
    by (right; left; reflexivity).
  split; [reflexivity|]. split; [exact Hg|]. split; [exact Hn|].
  split; [reflexivity|].
  exact (proj1 (icon_source_path unit all_succeed stdout_ok example_argv
                  "/md" tt "av" _ "pause" eq_refl Hg Hn) eq_refl).
Defined.

Lemma symbol_source_path_witness :
  nth_error example_argv 1 = Some "/md"
  /\ In "piano" SYMBOLS
  /\ fst (run_script all_succeed stdout_ok example_argv tt) = Ok tt
  /\ In (rasterize
           "/md/symbols/web/piano/materialsymbolssharp/piano_wght100_24px.svg"
           "res/images/md-symbols/piano.png")
        (commands_issued all_succeed stdout_ok example_argv tt).
Proof.
  assert (Hn : In "piano" SYMBOLS) by (cbn; tauto).
  split; [reflexivity|]. split; [exact Hn|]. split; [reflexivity|].
  exact (proj1 (symbol_source_path unit all_succeed stdout_ok example_argv
                  "/md" tt "piano" eq_refl Hn) eq_refl).
Defined.

Lemma rasterizer_parameters_witness :
  nth_error example_argv 1 = Some "/md"
  /\ In "file_save" SYMBOLS
  /\ fst (run_script all_succeed stdout_ok example_argv tt) = Ok tt
  /\ In ["convert";
         "/md/symbols/web/file_save/materialsymbolssharp/file_save_wght100_24px.svg";
         "-density"; "576"; "-background"; "none"; "-negate";
         "res/images/md-symbols/file_save.png"]
        (commands_issued all_succeed stdout_ok example_argv tt).
Proof.
  assert (Hn : In "file_save" SYMBOLS) by (cbn; tauto).
  split; [reflexivity|]. split; [exact Hn|]. split; [reflexivity|].
  exact (proj2 (proj2 (rasterizer_parameters unit all_succeed stdout_ok
                         example_argv "/md" tt eq_refl) eq_refl)
               "file_save" Hn).
Defined.

Lemma paths_confined_witness :
  nth_error example_argv 1 = Some "/md"
  /\ In (strip "res/images/md-symbols/stop.png")
        (commands_issued all_succeed stdout_ok example_argv tt)
  /\ ((strip "res/images/md-symbols/stop.png"
       = ["mkdir"; "-p"; "res/images/md-icons"]
       \/ strip "res/images/md-symbols/stop.png"
          = ["mkdir"; "-p"; "res/images/md-symbols"])
      \/ (exists src out,
             strip "res/images/md-symbols/stop.png" = rasterize src out
             /\ prefix "/md" src = true /\ catalog_output out)
      \/ (exists out,
             strip "res/images/md-symbols/stop.png" = strip out
             /\ catalog_output out)).
Proof.
  assert (Hc : In (strip "res/images/md-symbols/stop.png")
                  (commands_issued all_succeed stdout_ok example_argv tt))
    by (vm_compute; tauto).
  split; [reflexivity|]. split; [exact Hc|].
  exact (paths_confined unit all_succeed stdout_ok example_argv "/md" tt _
           eq_refl Hc).
Defined.

Lemma return_codes_ignored_witness :
  nth_error example_argv 1 = Some "/md"
  /\ stdout_ok (banner "/md") tt = Written tt
  /\ commands_start tools_fail (script_commands "/md")
  /\ tools_fail ["ls"] tt = None
  /\ fst (run_script tools_fail stdout_ok example_argv tt) = Ok tt
  /\ commands_issued tools_fail stdout_ok example_argv tt
     = script_commands "/md".
Proof.
  pose proof (return_codes_ignored unit tools_fail stdout_ok example_argv
                "/md" tt tt eq_refl eq_refl (tools_fail_start "/md"))
    as (Hok & Hall & _).
  split; [reflexivity|]. split; [reflexivity|].
  split; [exact (tools_fail_start "/md")|]. split; [reflexivity|].
  split; [exact Hok | exact Hall].
Defined.

(** C5, as the specification has it, fails: where [convert] cannot be
    started the first conversion raises, and neither its
    [mogrify -strip] nor any later entry follows. *)
Lemma convert_missing_stops :
  fst (run_script convert_missing stdout_ok example_argv tt)
  = Raise (OSError (Some "convert"))
  /\ commands_issued convert_missing stdout_ok example_argv tt
     = [ ["mkdir"; "-p"; "res/images/md-icons"];
         ["mkdir"; "-p"; "res/images/md-symbols"];
         rasterize "/md/src/av/play_arrow/materialicons/24px.svg"
                   "res/images/md-icons/play_arrow.png" ]
  /\ ~ In (strip "res/images/md-icons/play_arrow.png")
          (commands_issued convert_missing stdout_ok example_argv tt).
Proof.
  split; [reflexivity|]. split; [reflexivity|].
  vm_compute. intros [H|[H|[H|[]]]]; discriminate H.
Qed.

Lemma missing_argument_witness :
  nth_error bare_argv 1 = None
  /\ run_script all_succeed stdout_ok bare_argv tt
     = (Raise IndexError, mkState tt []).
Proof.
  split; [reflexivity|].
  exact (proj1 (missing_argument unit all_succeed stdout_ok bare_argv tt
                  eq_refl)).
Defined.

Lemma directories_prepared_first_witness :
  let dirs := ["res/images/md-symbols"; "res/images/md-icons"] in
  nth_error example_argv 1 = Some "/md"
  /\ stdout_ok (banner "/md") dirs = Written dirs
  /\ with_dirs ["mkdir"; "-p"; "res/images/md-icons"] dirs = Some (0%Z, dirs)
  /\ with_dirs ["mkdir"; "-p"; "res/images/md-symbols"] dirs
     = Some (0%Z, dirs)
  /\ run_script with_dirs stdout_ok example_argv dirs
     = (outcome with_dirs (conversion_commands "/md") dirs,
        mkState (world_after with_dirs (conversion_commands "/md") dirs)
          (Print (banner "/md")
           :: Run ["mkdir"; "-p"; "res/images/md-icons"] (Some 0%Z)
           :: Run ["mkdir"; "-p"; "res/images/md-symbols"] (Some 0%Z)
           :: sequential with_dirs (conversion_commands "/md") dirs)).
Proof.
  intros dirs.
  split; [reflexivity|]. split; [reflexivity|].
  split; [reflexivity|]. split; [reflexivity|].
  exact (proj2 (directories_prepared_first (list string) with_dirs stdout_ok
                  example_argv "/md" dirs eq_refl)
               dirs 0%Z dirs 0%Z dirs eq_refl eq_refl eq_refl).
Defined.

Lemma strictly_sequential_witness :
  nth_error example_argv 1 = Some "/md"
  /\ log (snd (run_script all_succeed stdout_ok example_argv tt))
     = Print (banner "/md") :: sequential all_succeed (script_commands "/md") tt.
Proof.
  split; [reflexivity|].
  exact (proj1 (strictly_sequential unit all_succeed stdout_ok example_argv
                  "/md" tt eq_refl)).
Defined.

Lemma rerun_same_commands_witness :
  let first := run_script file_system stdout_ok example_argv [] in
  let second :=
    run_script file_system stdout_ok example_argv (world (snd first)) in
  nth_error example_argv 1 = Some "/md"
  /\ printable (@stdout_ok (list string)) (banner "/md")
  /\ commands_start file_system (script_commands "/md")
  /\ List.length (world (snd first)) = 14
  /\ In "res/images/md-icons/stop.png" (world (snd first))
  /\ world (snd second) = world (snd first)
  /\ fst first = Ok tt
  /\ fst second = Ok tt
  /\ commands_of (log (snd first)) = script_commands "/md"
  /\ commands_of (log (snd second)) = script_commands "/md".
Proof.
  intros first second.
  split; [reflexivity|].
  split; [exact (stdout_ok_printable (banner "/md"))|].
  split; [exact (file_system_start "/md")|].
  split; [reflexivity|].
  split; [vm_compute; tauto|].
  split; [reflexivity|].
  exact (proj2 (proj2 (rerun_same_commands (list string) file_system
                         stdout_ok example_argv "/md" [] eq_refl))
               (stdout_ok_printable (banner "/md"))
               (file_system_start "/md")).
Defined.

Lemma only_argv1_matters_witness :
  nth_error example_argv 1
  = nth_error ["./generate-md-icons.py"; "/md"; "--force"] 1
  /\ run_script all_succeed stdout_ok example_argv tt
     = run_script all_succeed stdout_ok
         ["./generate-md-icons.py"; "/md"; "--force"] tt.
Proof.
  split; [reflexivity|].
  exact (only_argv1_matters unit all_succeed stdout_ok example_argv
           ["./generate-md-icons.py"; "/md"; "--force"] tt eq_refl).
Defined.

Lemma success_iff_complete_witness :
  nth_error example_argv 1 = Some "/md"
  /\ (fst (run_script all_fail stdout_ok example_argv tt) = Ok tt
      <-> commands_issued all_fail stdout_ok example_argv tt
          = script_commands "/md"
          /\ all_exited
               (log (snd (run_script all_fail stdout_ok example_argv tt)))
             = true).
Proof.
  split; [reflexivity|].
  exact (success_iff_complete unit all_fail stdout_ok example_argv "/md" tt
           eq_refl).
Defined.


Lemma strip_after_every_convert_witness :
  let events := log (snd (run_script all_fail stdout_ok example_argv tt)) in
  let out := "res/images/md-icons/play_arrow.png" in
  let src := "/md/src/av/play_arrow/materialicons/24px.svg" in
  nth_error example_argv 1 = Some "/md"
  /\ events
     = (firstn 3 events
        ++ Run (rasterize src out) (Some 1%Z) :: skipn 4 events)%list
  /\ exists status l2', skipn 4 events = Run (strip out) status :: l2'.
Proof.
  intros events out src.
  split; [reflexivity|]. split; [reflexivity|].
  exact (strip_after_every_convert unit all_fail stdout_ok example_argv
           "/md" tt (firstn 3 events) (skipn 4 events) src out 1%Z
           eq_refl eq_refl).
Defined.

Lemma strip_only_after_its_convert_witness :
  let commands := commands_issued all_succeed stdout_ok example_argv tt in
  let out := "res/images/md-symbols/piano.png" in
  nth_error example_argv 1 = Some "/md"
  /\ commands
     = (firstn 19 commands ++ strip out :: skipn 20 commands)%list
  /\ exists l0 src, firstn 19 commands = (l0 ++ [rasterize src out])%list.
Proof.
  intros commands out.
  split; [reflexivity|]. split; [reflexivity|].
  exact (strip_only_after_its_convert unit all_succeed stdout_ok
           example_argv "/md" tt (firstn 19 commands) (skipn 20 commands)
           out eq_refl eq_refl).
Defined.
